(** * Typed header codec of hyperx: caches, list codec and header parsers

    A shallow embedding of [src/header/internals/cell.rs] (the
    single-assignment [OptCell] and the type-keyed [PtrMapCell]) and of
    the [parse_header] / [FromStr] / [Display] code of several concrete
    headers in [src/header/common] (among them [Warning], whose parser
    uses [str::split_whitespace], [str::split] and [u16::from_str],
    modelled here byte-wise).  Raw header values are byte strings, modelled as
    Stdlib [string] (a sequence of 8-bit [ascii] characters). *)

From Stdlib Require Import String Ascii List Bool Arith Lia.
From stdpp Require Import base gmap.

Import ListNotations.
Local Open Scope string_scope.
Local Open Scope list_scope.

(** ** Errors and results *)

(** [::Error] restricted to the variants the parsers below raise. *)
Inductive Error := Header | Utf8.

(** [::Result<T>]. *)
Inductive Result (T : Type) := Ok (v : T) | Err (e : Error).
Arguments Ok {T} v.
Arguments Err {T} e.

(** An operation that can hit a [panic!] / failed [debug_assert!]. *)
Inductive Outcome (T : Type) := Done (v : T) | Panic.
Arguments Done {T} v.
Arguments Panic {T}.

(** ** [OptCell<T>] (cell.rs, lines 7-37) *)
Module OptCell.

(** Rust compiles [debug_assert!] only in debug builds. *)
Inductive Build := Debug | Release.

Section Cell.
Context {T : Type}.

(** The cell's content: [UnsafeCell<Option<T>>]. *)
Definition OptCell := option T.

(** [OptCell::new]. *)
Definition new (val : option T) : OptCell := val.

(** [Deref for OptCell]: the contained [Option<T>]. *)
Definition deref (c : OptCell) : option T := c.

(** [OptCell::set]: a debug-build assertion that the option is [None], then [Some(val)] is stored. *)
Definition set (b : Build) (c : OptCell) (val : T) : Outcome OptCell :=
  match b with
  | Debug => match c with None => Done (Some val) | Some _ => Panic end
  | Release => Done (Some val)
  end.

(** [OptCell::get_mut]: [opt.as_mut().unwrap()], a panic on [None]. *)
Definition get_mut (c : OptCell) : Outcome T :=
  match c with
  | Some v => Done v
  | None => Panic
  end.
End Cell.
End OptCell.

(** ** [PtrMapCell<V>] (cell.rs, lines 46-152) *)
Module PtrMapCell.

(** A runtime [TypeId]: an opaque token with decidable equality. *)
Definition TypeId := positive.

(** [enum PtrMap<T> { Empty, One(TypeId, T), Many(HashMap<TypeId, T>) }] *)
Inductive PtrMap (T : Type) :=
| Empty
| One (id : TypeId) (v : T)
| Many (hm : gmap positive T).
Arguments Empty {T}.
Arguments One {T} id v.
Arguments Many {T} hm.

Section Cell.
Context {V : Type}.

(** [PtrMapCell::new]. *)
Definition new : PtrMap V := Empty.

(** [PtrMapCell::with_one]. *)
Definition with_one (key : TypeId) (val : V) : PtrMap V := One key val.

(** [PtrMapCell::get]. *)
Definition get (map : PtrMap V) (key : TypeId) : option V :=
  match map with
  | Empty => None
  | One id v => if decide (id = key) then Some v else None
  | Many hm => hm !! key
  end.

(** [PtrMapCell::insert]; in the [One] arm the [debug_assert_ne!(id, key)]
    is a debug-build check only, the map is built unconditionally
    ([HashMap::with_capacity(2)], insert [id], then insert [key]). *)
Definition insert (map : PtrMap V) (key : TypeId) (val : V) : PtrMap V :=
  match map with
  | Empty => One key val
  | One id one => Many (<[key := val]> (<[id := one]> (∅ : gmap positive V)))
  | Many hm => Many (<[key := val]> hm)
  end.

(** [PtrMapCell::one]: [panic!("not PtrMap::One value")] outside [One]. *)
Definition one (map : PtrMap V) : Outcome V :=
  match map with
  | One _ v => Done v
  | _ => Panic
  end.

(** The tokens that have an entry. *)
Definition tokens (map : PtrMap V) : list TypeId :=
  match map with
  | Empty => []
  | One id _ => [id]
  | Many hm => (map_to_list hm).*1
  end.

(** The structural state as a rank: Empty 0, One 1, Many 2. *)
Definition rank (map : PtrMap V) : nat :=
  match map with Empty => 0 | One _ _ => 1 | Many _ => 2 end.
End Cell.
End PtrMapCell.

(** ** Byte-string helpers *)
Module Bytes.

Definition byte_in (c : ascii) (lo hi : nat) : bool :=
  Nat.leb lo (nat_of_ascii c) && Nat.leb (nat_of_ascii c) hi.

Definition cont (c : ascii) : bool := byte_in c 128 191.

(** [str::from_utf8] succeeds: the well-formed UTF-8 byte sequences
    (no overlong forms, no surrogates, nothing above U+10FFFF). *)
Fixpoint utf8_valid (s : string) : bool :=
  match s with
  | EmptyString => true
  | String c1 r1 =>
    if byte_in c1 0 127 then utf8_valid r1 else
    match r1 with
    | EmptyString => false
    | String c2 r2 =>
      if byte_in c1 194 223 then cont c2 && utf8_valid r2 else
      match r2 with
      | EmptyString => false
      | String c3 r3 =>
        if byte_in c1 224 239 then
          (if byte_in c1 224 224 then byte_in c2 160 191
           else if byte_in c1 237 237 then byte_in c2 128 159
           else cont c2) && cont c3 && utf8_valid r3
        else
        match r3 with
        | EmptyString => false
        | String c4 r4 =>
          if byte_in c1 240 244 then
            (if byte_in c1 240 240 then byte_in c2 144 191
             else if byte_in c1 244 244 then byte_in c2 128 143
             else cont c2) && cont c3 && cont c4 && utf8_valid r4
          else false
        end
      end
    end
  end.

(** The ASCII characters of [char::is_whitespace]. *)
Definition is_ws (c : ascii) : bool :=
  match nat_of_ascii c with
  | 9 | 10 | 11 | 12 | 13 | 32 => true
  | _ => false
  end.

Fixpoint trim_start (s : string) : string :=
  match s with
  | EmptyString => EmptyString
  | String c r => if is_ws c then trim_start r else s
  end.

Fixpoint trim_end (s : string) : string :=
  match s with
  | EmptyString => EmptyString
  | String c r =>
    let r' := trim_end r in
    if is_ws c && String.eqb r' "" then EmptyString else String c r'
  end.

Definition trim (s : string) : string := trim_end (trim_start s).

(** [u8::to_ascii_lowercase]. *)
Definition lower_char (c : ascii) : ascii :=
  if byte_in c 65 90 then ascii_of_nat (nat_of_ascii c + 32) else c.

(** [str::to_ascii_lowercase]. *)
Fixpoint to_ascii_lowercase (s : string) : string :=
  match s with
  | EmptyString => EmptyString
  | String c r => String (lower_char c) (to_ascii_lowercase r)
  end.

(** [unicase::eq_ascii] (external crate): equal up to ASCII case. *)
Definition eq_ascii (a b : string) : bool :=
  String.eqb (to_ascii_lowercase a) (to_ascii_lowercase b).

Definition DQUOTE : ascii := ascii_of_nat 34.
Definition BSLASH : ascii := ascii_of_nat 92.

(** Modelled from the spec: the splitting of [header::parsing]
    (parsing.rs is not in src).  Section 4.4: items are separated by
    [sep] at the top level; inside a quoted string ["..."], where a
    backslash escapes the next character, [sep] is a literal.
    [cur] is the item read so far. *)
Fixpoint split_go (sep : ascii) (inq esc : bool) (cur s : string)
    : list string :=
  match s with
  | EmptyString => [cur]
  | String c r =>
    if inq then
      if esc then split_go sep true false (cur ++ String c "") r
      else if Ascii.eqb c BSLASH then split_go sep true true (cur ++ String c "") r
      else if Ascii.eqb c DQUOTE then split_go sep false false (cur ++ String c "") r
      else split_go sep true false (cur ++ String c "") r
    else if Ascii.eqb c sep then cur :: split_go sep false false "" r
    else if Ascii.eqb c DQUOTE then split_go sep true false (cur ++ String c "") r
    else split_go sep false false (cur ++ String c "") r
  end.

Definition split_top (sep : ascii) (s : string) : list string :=
  split_go sep false false "" s.

(** Split at the first [=]: the key and, if there is one, the value. *)
Fixpoint split_once (s : string) : string * option string :=
  match s with
  | EmptyString => (EmptyString, None)
  | String c r =>
    if Ascii.eqb c "=" then (EmptyString, Some r)
    else let (k, v) := split_once r in (String c k, v)
  end.

Fixpoint filter_map {A B} (f : A -> option B) (l : list A) : list B :=
  match l with
  | [] => []
  | x :: r => match f x with Some y => y :: filter_map f r | None => filter_map f r end
  end.

End Bytes.
Import Bytes.

(** ** Raw fields *)
Module Raw.

(** A [RawField]: one byte string per occurrence of the field. *)
Definition RawField := list string.

(** Modelled from the spec: [RawLike::one] (header/raw.rs is not in
    src): the field's only line, when it has exactly one. *)
Definition one (raw : RawField) : option string :=
  match raw with
  | [line] => Some line
  | _ => None
  end.

(** Modelled from the spec: [parsing::from_raw_str] (parsing.rs is not
    in src) decoding a single line as text: bytes that are not UTF-8
    are a decode failure (section 7). *)
Definition from_raw_str (line : string) : Result string :=
  if utf8_valid line then Ok line else Err Utf8.

(** Modelled from the spec: [parsing::from_comma_delimited] (parsing.rs
    is not in src).  Each line must be UTF-8; it is split on top-level
    commas (4.4), every item is trimmed, empty items are skipped (4.3),
    and the remaining items are decoded with [parse]; an item that fails
    to decode is dropped, not the list (4.3, 7).  The lines are combined
    as further comma-separated segments (4.5). *)
Definition line_items {T} (parse : string -> option T) (line : string) : list T :=
  filter_map (fun x => let t := trim x in if String.eqb t "" then None else parse t)
    (split_top "," line).

Fixpoint from_comma_delimited {T} (parse : string -> option T) (raw : RawField)
    : Result (list T) :=
  match raw with
  | [] => Ok []
  | line :: rest =>
    if utf8_valid line then
      match from_comma_delimited parse rest with
      | Ok items => Ok (line_items parse line ++ items)
      | Err e => Err e
      end
    else Err Utf8
  end.

End Raw.

(** ** [ReferrerPolicy] (referrer_policy.rs) *)
Module ReferrerPolicy.

Inductive ReferrerPolicy :=
| NoReferrer
| NoReferrerWhenDowngrade
| SameOrigin
| Origin
| OriginWhenCrossOrigin
| UnsafeUrl
| StrictOrigin
| StrictOriginWhenCrossOrigin.

(** The [match slice] of [parse_header] (lines 71-81): [None] is the
    [_ => continue] arm. *)
Definition policy_of (slice : string) : option ReferrerPolicy :=
  if String.eqb slice "no-referrer" || String.eqb slice "never" then Some NoReferrer
  else if String.eqb slice "no-referrer-when-downgrade" || String.eqb slice "default"
  then Some NoReferrerWhenDowngrade
  else if String.eqb slice "same-origin" then Some SameOrigin
  else if String.eqb slice "origin" then Some Origin
  else if String.eqb slice "origin-when-cross-origin" then Some OriginWhenCrossOrigin
  else if String.eqb slice "strict-origin" then Some StrictOrigin
  else if String.eqb slice "strict-origin-when-cross-origin"
  then Some StrictOriginWhenCrossOrigin
  else if String.eqb slice "unsafe-url" || String.eqb slice "always" then Some UnsafeUrl
  else None.

(** The loop [for h in headers.iter().rev()] over the already reversed
    list, then [Err(::Error::Header)]. *)
Fixpoint scan (hs : list string) : Result ReferrerPolicy :=
  match hs with
  | [] => Err Header
  | h :: t =>
    match policy_of (to_ascii_lowercase h) with
    | Some p => Ok p
    | None => scan t
    end
  end.

(** [ReferrerPolicy::parse_header]; the items are [String]s, whose
    [FromStr] never fails. *)
Definition parse_header (raw : Raw.RawField) : Result ReferrerPolicy :=
  match Raw.from_comma_delimited (fun s => Some s) raw with
  | Err e => Err e
  | Ok headers => scan (rev headers)
  end.

(** [fmt::Display for ReferrerPolicy]. *)
Definition fmt (p : ReferrerPolicy) : string :=
  match p with
  | NoReferrer => "no-referrer"
  | NoReferrerWhenDowngrade => "no-referrer-when-downgrade"
  | SameOrigin => "same-origin"
  | Origin => "origin"
  | OriginWhenCrossOrigin => "origin-when-cross-origin"
  | StrictOrigin => "strict-origin"
  | StrictOriginWhenCrossOrigin => "strict-origin-when-cross-origin"
  | UnsafeUrl => "unsafe-url"
  end.

End ReferrerPolicy.

(** ** [QualityItem<T>] *)
Module Quality.

(** Modelled from the spec: [QualityItem] and [Quality]
    (header/shared/quality_item.rs is not in src), section 3: an item
    and a fixed-point quality in [0, 1000], default 1000. *)
Record QualityItem (T : Type) := { item : T; quality : nat }.
Arguments item {T} q.
Arguments quality {T} q.

Definition default_quality : nat := 1000.

Definition digit (c : ascii) : option nat :=
  if byte_in c 48 57 then Some (nat_of_ascii c - 48) else None.

(** Modelled from the spec (4.3, 8): the fractional digits of a
    q-value, at most three. *)
Definition frac (ds : string) : option nat :=
  match ds with
  | EmptyString => Some 0
  | String a EmptyString =>
    match digit a with Some x => Some (100 * x) | None => None end
  | String a (String b EmptyString) =>
    match digit a, digit b with Some x, Some y => Some (100 * x + 10 * y) | _, _ => None end
  | String a (String b (String c EmptyString)) =>
    match digit a, digit b, digit c with
    | Some x, Some y, Some z => Some (100 * x + 10 * y + z)
    | _, _, _ => None
    end
  | _ => None
  end.

(** Modelled from the spec (4.3, 8): a decimal in [0, 1] with at most
    three fractional digits, as a value in [0, 1000]. *)
Definition parse_qvalue (s : string) : option nat :=
  match s with
  | String "0" EmptyString => Some 0
  | String "0" (String "." ds) => frac ds
  | String "1" EmptyString => Some 1000
  | String "1" (String "." ds) =>
    match frac ds with Some 0 => Some 1000 | _ => None end
  | _ => None
  end.

(** Modelled from the spec (4.3): the first [q] parameter gives the
    quality; other keys are ignored; no [q] parameter means 1000. *)
Fixpoint q_param (params : list string) : option nat :=
  match params with
  | [] => Some default_quality
  | p :: rest =>
    let (k, v) := split_once p in
    if String.eqb (trim k) "q" then
      match v with Some w => parse_qvalue (trim w) | None => None end
    else q_param rest
  end.

(** Modelled from the spec (4.3): split on [;]; the first segment is
    the item text, the others are [key=value] parameters. *)
Definition parse_qitem {T} (parse_item : string -> option T) (s : string)
    : option (QualityItem T) :=
  match split_top ";" s with
  | [] => None
  | it :: params =>
    match parse_item (trim it), q_param params with
    | Some x, Some q => Some {| item := x; quality := q |}
    | _, _ => None
    end
  end.

(** Whether the item text carries a [q] parameter. *)
Definition has_q_param (s : string) : bool :=
  existsb (fun p => String.eqb (trim (fst (split_once p))) "q") (tl (split_top ";" s)).

(** The three digits of [q] in [0, 999], trailing zeros trimmed. *)
Definition frac_digits (q : nat) : string :=
  let d1 := q / 100 in
  let d2 := (q / 10) mod 10 in
  let d3 := q mod 10 in
  let c n := String (ascii_of_nat (48 + n)) EmptyString in
  if Nat.eqb d3 0 then
    if Nat.eqb d2 0 then c d1 else c d1 ++ c d2
  else c d1 ++ c d2 ++ c d3.

(** Modelled from the spec (4.3): the [;q=W] suffix, omitted for the
    default quality. *)
Definition fmt_quality (q : nat) : string :=
  if Nat.eqb q default_quality then ""
  else if Nat.eqb q 0 then ";q=0"
  else ";q=0." ++ frac_digits q.

Definition fmt_qitem {T} (fmt_item : T -> string) (qi : QualityItem T) : string :=
  fmt_item (item qi) ++ fmt_quality (quality qi).

End Quality.

(** ** [AcceptEncoding] and [Te]: [(QualityItem<Encoding>)*] lists *)
Module Encoding.

(** Modelled from the spec: [Encoding] (header/shared/encoding.rs is
    not in src) is an opaque token; its decoding never fails. *)
Definition Encoding := string.

Definition from_str (s : string) : option Encoding := Some s.

End Encoding.

Module AcceptEncoding.

(** [header!] for [(AcceptEncoding, ...) => (QualityItem<Encoding>)*]:
    [from_comma_delimited(raw).map(AcceptEncoding)]. *)
Definition parse_header (raw : Raw.RawField)
    : Result (list (Quality.QualityItem Encoding.Encoding)) :=
  Raw.from_comma_delimited (Quality.parse_qitem Encoding.from_str) raw.

End AcceptEncoding.

Module Te.

(** [header!] for [(Te, "TE") => (QualityItem<Encoding>)*]. *)
Definition parse_header (raw : Raw.RawField)
    : Result (list (Quality.QualityItem Encoding.Encoding)) :=
  Raw.from_comma_delimited (Quality.parse_qitem Encoding.from_str) raw.

End Te.

(** ** The shape of a list field (spec 4.4)

    Used to state what the list decoder does with a field: segments
    joined by commas, each segment a sequence of plain text (no comma,
    no double quote) and quoted strings, whose content is written with a
    backslash before every double quote and backslash. *)
Module ListSyntax.

Inductive Piece := Plain (s : string) | Quoted (s : string).

Fixpoint escape (s : string) : string :=
  match s with
  | EmptyString => EmptyString
  | String c r =>
    if Ascii.eqb c DQUOTE || Ascii.eqb c BSLASH then String BSLASH (String c (escape r))
    else String c (escape r)
  end.

Definition render_piece (p : Piece) : string :=
  match p with
  | Plain s => s
  | Quoted s => String DQUOTE (escape s ++ String DQUOTE "")%string
  end.

Definition render (seg : list Piece) : string :=
  fold_right (fun p acc => (render_piece p ++ acc)%string) "" seg.

Fixpoint plain_ok (s : string) : bool :=
  match s with
  | EmptyString => true
  | String c r => negb (Ascii.eqb c ",") && negb (Ascii.eqb c DQUOTE) && plain_ok r
  end.

Definition seg_ok (seg : list Piece) : bool :=
  forallb (fun p => match p with Plain s => plain_ok s | Quoted _ => true end) seg.

Fixpoint join (l : list string) : string :=
  match l with
  | [] => ""
  | [x] => x
  | x :: r => (x ++ String "," (join r))%string
  end.

End ListSyntax.

(** ** [LastEventId] (last_event_id.rs) *)
Module LastEventId.

Inductive LastEventId := mk (id : string).

(** [LastEventId::parse_header]. *)
Definition parse_header (raw : Raw.RawField) : Result LastEventId :=
  match Raw.one raw with
  | Some line =>
    if String.eqb line "" then Ok (mk "")
    else match Raw.from_raw_str line with Ok s => Ok (mk s) | Err e => Err e end
  | None => Err Header
  end.

End LastEventId.

(** ** [AccessControlAllowCredentials] (access_control_allow_credentials.rs) *)
Module AccessControlAllowCredentials.

Inductive AccessControlAllowCredentials := mk.

Definition ACCESS_CONTROL_ALLOW_CREDENTIALS_TRUE : string := "true".

(** [AccessControlAllowCredentials::parse_header]: the line is compared
    byte-wise, without a UTF-8 check ([from_utf8_unchecked]). *)
Definition parse_header (raw : Raw.RawField) : Result AccessControlAllowCredentials :=
  match Raw.one raw with
  | Some line =>
    if eq_ascii line ACCESS_CONTROL_ALLOW_CREDENTIALS_TRUE then Ok mk else Err Header
  | None => Err Header
  end.

(** [Display for AccessControlAllowCredentials]. *)
Definition fmt (_ : AccessControlAllowCredentials) : string := "true".

End AccessControlAllowCredentials.

(** ** [Cookie] (cookie.rs) *)
Module Cookie.

(** Modelled from the spec: [VecMap] (header/internals/vec_map.rs is
    not in src), as [Cookie]'s documentation describes it: a vector of
    (name, value) pairs in insertion order; [append] adds a pair at the
    end, [remove_all] removes every pair with the name, [get] returns
    the first value found for the name. *)
Definition VecMap := list (string * string).

Definition vm_append (key value : string) (m : VecMap) : VecMap := m ++ [(key, value)].

Definition vm_remove_all (key : string) (m : VecMap) : VecMap :=
  List.filter (fun kv => negb (String.eqb (fst kv) key)) m.

Definition vm_get (key : string) (m : VecMap) : option string :=
  match List.find (fun kv => String.eqb (fst kv) key) m with
  | Some kv => Some (snd kv)
  | None => None
  end.

(** [Cookie(VecMap<Cow<str>, Cow<str>>)]. *)
Definition Cookie := VecMap.

Definition new : Cookie := [].

(** [Cookie::set]: [remove_all] then [append]. *)
Definition set (c : Cookie) (key value : string) : Cookie :=
  vm_append key value (vm_remove_all key c).

(** [Cookie::append]. *)
Definition append (c : Cookie) (key value : string) : Cookie := vm_append key value c.

(** [Cookie::get]. *)
Definition get (c : Cookie) (key : string) : option string := vm_get key c.

(** The [for (key, val) in iter] loop of [fmt::Display for Cookie]. *)
Fixpoint fmt_rest (l : VecMap) : string :=
  match l with
  | [] => ""
  | (key, val) :: r => "; " ++ key ++ "=" ++ val ++ fmt_rest r
  end.

(** [fmt::Display for Cookie]: the first pair as [key=val], the others
    each preceded by [; ]. *)
Definition fmt (c : Cookie) : string :=
  match c with
  | [] => ""
  | (key, val) :: r => key ++ "=" ++ val ++ fmt_rest r
  end.

(** [PartialEq for Cookie]: equal lengths, and [other.get(k) == Some(v)]
    for every pair [(k, v)] of [self]. *)
Definition eq (self other : Cookie) : bool :=
  if Nat.eqb (length self) (length other) then
    forallb (fun kv => match get other (fst kv) with
                       | Some v => String.eqb v (snd kv)
                       | None => false
                       end) self
  else false.

End Cookie.

(** ** [PreferenceApplied] (preference_applied.rs) *)
Module PreferenceApplied.

(** Modelled from the spec: [Preference] (header/common/prefer.rs is
    not in src), with the variants [preference_applied.rs] uses; only
    [Extension] carries parameters. *)
Inductive Preference :=
| RespondAsync
| ReturnRepresentation
| ReturnMinimal
| Wait (n : nat)
| Extension (name value : string) (params : list (string * string)).

Definition PreferenceApplied := list Preference.

(** The [map] closure of [fmt::Display for PreferenceApplied]: the
    parameters of an [Extension] are dropped. *)
Definition strip (pref : Preference) : Preference :=
  match pref with
  | Extension name value _ => Extension name value []
  | preference => preference
  end.

(** [fmt::Display for PreferenceApplied], for any
    [fmt_comma_delimited] over [Preference]s (parsing.rs and the
    [Display] of [Preference] are not in src). *)
Definition fmt (fmt_comma_delimited : list Preference -> string)
    (pa : PreferenceApplied) : string :=
  fmt_comma_delimited (map strip pa).

(** [PreferenceApplied::parse_header], for any [FromStr] of [Preference]:
    the decoded list, refused when it is empty. *)
Definition parse_header (from_str : string -> option Preference) (raw : Raw.RawField)
    : Result PreferenceApplied :=
  match Raw.from_comma_delimited from_str raw with
  | Err e => Err e
  | Ok preferences =>
    match preferences with
    | [] => Err Header
    | _ => Ok preferences
    end
  end.

End PreferenceApplied.

(** ** [RangeUnit] (accept_ranges.rs) *)
Module RangeUnit.

Inductive RangeUnit := Bytes | None | Unregistered (s : string).

(** [FromStr for RangeUnit]. *)
Definition from_str (s : string) : Result RangeUnit :=
  if String.eqb s "bytes" then Ok Bytes
  else if String.eqb s "none" then Ok None
  else Ok (Unregistered s).

(** [Display for RangeUnit]. *)
Definition fmt (u : RangeUnit) : string :=
  match u with
  | Bytes => "bytes"
  | None => "none"
  | Unregistered x => x
  end.

End RangeUnit.

(** ** [AccessControlAllowOrigin] (access_control_allow_origin.rs) *)
Module AccessControlAllowOrigin.

Inductive AccessControlAllowOrigin := Any | Null | Value (s : string).

(** [AccessControlAllowOrigin::parse_header]: the only line, matched
    byte-wise against [*] and [null], otherwise [str::from_utf8(line)?]. *)
Definition parse_header (raw : Raw.RawField) : Result AccessControlAllowOrigin :=
  match Raw.one raw with
  | Some line =>
    if String.eqb line "*" then Ok Any
    else if String.eqb line "null" then Ok Null
    else if utf8_valid line then Ok (Value line) else Err Utf8
  | None => Err Header
  end.

(** [Display for AccessControlAllowOrigin]. *)
Definition fmt (v : AccessControlAllowOrigin) : string :=
  match v with
  | Any => "*"
  | Null => "null"
  | Value url => url
  end.

End AccessControlAllowOrigin.

(** ** Text routines of the Rust standard library *)
Module Text.

(** The UTF-8 length of the Unicode [White_Space] character
    ([char::is_whitespace]) that starts [s], 0 when none does: U+0009 to
    U+000D, U+0020, U+0085, U+00A0, U+1680, U+2000 to U+200A, U+2028,
    U+2029, U+202F, U+205F and U+3000. *)
Definition ws_len (s : string) : nat :=
  match s with
  | EmptyString => 0
  | String c1 r1 =>
    let n1 := nat_of_ascii c1 in
    if is_ws c1 then 1
    else if Nat.ltb n1 194 then 0
    else match r1 with
    | EmptyString => 0
    | String c2 r2 =>
      let n2 := nat_of_ascii c2 in
      if Nat.eqb n1 194 then (if Nat.eqb n2 133 || Nat.eqb n2 160 then 2 else 0)
      else match r2 with
      | EmptyString => 0
      | String c3 _ =>
        let n3 := nat_of_ascii c3 in
        if Nat.eqb n1 225 then (if Nat.eqb n2 154 && Nat.eqb n3 128 then 3 else 0)
        else if Nat.eqb n1 226 then
          if Nat.eqb n2 128 then
            (if byte_in c3 128 138 || Nat.eqb n3 168 || Nat.eqb n3 169 || Nat.eqb n3 175
             then 3 else 0)
          else if Nat.eqb n2 129 then (if Nat.eqb n3 159 then 3 else 0)
          else 0
        else if Nat.eqb n1 227 then (if Nat.eqb n2 128 && Nat.eqb n3 128 then 3 else 0)
        else 0
      end
    end
  end.

(** [str::split_whitespace] on a [&str]: the pieces between whitespace
    characters, empty pieces left out; [skip] counts the remaining bytes
    of the whitespace character being passed over. *)
Fixpoint sw_go (skip : nat) (cur s : string) : list string :=
  match s with
  | EmptyString => if String.eqb cur "" then [] else [cur]
  | String c r =>
    match skip with
    | S k => sw_go k cur r
    | O =>
      let w := ws_len s in
      if Nat.eqb w 0 then sw_go 0 (cur ++ String c "") r
      else (if String.eqb cur "" then [] else [cur]) ++ sw_go (w - 1) "" r
    end
  end.

Definition split_whitespace (s : string) : list string := sw_go 0 "" s.

(** [str::split(sep)] for an ASCII [sep]: every piece, empty ones too. *)
Fixpoint split_char_go (sep : ascii) (cur s : string) : list string :=
  match s with
  | EmptyString => [cur]
  | String c r =>
    if Ascii.eqb c sep then cur :: split_char_go sep "" r
    else split_char_go sep (cur ++ String c "") r
  end.

Definition split_char (sep : ascii) (s : string) : list string := split_char_go sep "" s.

(** [str::trim_start]: the leading whitespace characters dropped;
    [skip] counts the remaining bytes of the one being dropped. *)
Fixpoint trim_start_go (skip : nat) (s : string) : string :=
  match s with
  | EmptyString => EmptyString
  | String c r =>
    match skip with
    | S k => trim_start_go k r
    | O => let w := ws_len s in if Nat.eqb w 0 then s else trim_start_go (w - 1) r
    end
  end.

(** [str::trim_end]: [pend] holds the whitespace read since the last
    other character; it is kept when another character follows and
    dropped at the end. *)
Fixpoint trim_end_go (skip : nat) (pend s : string) : string :=
  match s with
  | EmptyString => EmptyString
  | String c r =>
    match skip with
    | S k => trim_end_go k (pend ++ String c "") r
    | O =>
      let w := ws_len s in
      if Nat.eqb w 0 then pend ++ String c (trim_end_go 0 "" r)
      else trim_end_go (w - 1) (pend ++ String c "") r
    end
  end.

(** [str::trim]. *)
Definition str_trim (s : string) : string := trim_end_go 0 "" (trim_start_go 0 s).

Definition dec_digit (c : ascii) : option nat :=
  if byte_in c 48 57 then Some (nat_of_ascii c - 48) else None.

Fixpoint digits_value (acc : nat) (s : string) : option nat :=
  match s with
  | EmptyString => Some acc
  | String c r =>
    match dec_digit c with
    | Some d => digits_value (acc * 10 + d) r
    | None => None
    end
  end.

(** [u16::from_str]: an optional [+], then at least one decimal digit,
    the value at most 65535 (the running value only grows, so the
    overflow check on the way is the check on the result). *)
Definition parse_u16 (s : string) : option nat :=
  let ds := match s with String "+" r => r | _ => s end in
  match ds with
  | EmptyString => None
  | _ =>
    match digits_value 0 ds with
    | Some n => if Nat.leb n 65535 then Some n else None
    | None => None
    end
  end.

Definition digit_char (d : nat) : string := String (ascii_of_nat (48 + d)) "".

Fixpoint digits_of (fuel n : nat) : string :=
  match fuel with
  | O => ""
  | S f => if Nat.ltb n 10 then digit_char n else digits_of f (n / 10) ++ digit_char (n mod 10)
  end.

(** The decimal [Display] of an unsigned integer. *)
Definition fmt_dec (n : nat) : string := digits_of (S n) n.

Fixpoint zeros (k : nat) : string :=
  match k with O => "" | S k' => String "0" (zeros k') end.

(** [{:03}]: zero-padded to at least three characters. *)
Definition pad3 (s : string) : string :=
  if Nat.ltb (String.length s) 3 then zeros (3 - String.length s) ++ s else s.

(** Every byte is visible ASCII other than the double quote. *)
Fixpoint token_chars (s : string) : bool :=
  match s with
  | EmptyString => true
  | String c r => byte_in c 33 126 && negb (Ascii.eqb c DQUOTE) && token_chars r
  end.

(** No byte is a double quote. *)
Fixpoint no_quote (s : string) : bool :=
  match s with
  | EmptyString => true
  | String c r => negb (Ascii.eqb c DQUOTE) && no_quote r
  end.

End Text.

(** ** [Warning] (warning.rs) *)
Module Warning.
Import Text.

(** [struct Warning]; [code] is a [u16]. *)
Record Warning (HttpDate : Type) :=
  { code : nat; agent : string; text : string; date : option HttpDate }.
Arguments code {HttpDate} w.
Arguments agent {HttpDate} w.
Arguments text {HttpDate} w.
Arguments date {HttpDate} w.

Section Codec.
(** [HttpDate]'s [FromStr] and [Display] (header/shared/httpdate.rs is not
    in src): any pair of functions. *)
Context {HttpDate : Type} (parse_date : string -> option HttpDate)
        (fmt_date : HttpDate -> string).

(** [FromStr for Warning]. *)
Definition from_str (s : string) : Result (Warning HttpDate) :=
  match split_whitespace s with
  | [] => Err Header
  | c :: ws =>
    match parse_u16 c with
    | None => Err Header
    | Some code =>
      match ws with
      | [] => Err Header
      | a :: _ =>
        match tl (split_char DQUOTE s) with
        | [] => Err Header
        | t :: rest =>
          let date := match nth_error rest 1 with
                      | Some d => parse_date d
                      | None => None
                      end in
          Ok {| code := code; agent := a; text := t; date := date |}
        end
      end
    end
  end.

(** [fmt::Display for Warning]. *)
Definition fmt (w : Warning HttpDate) : string :=
  match date w with
  | Some d =>
    pad3 (fmt_dec (code w)) ++ " " ++ agent w ++ " " ++
    String DQUOTE (text w ++ String DQUOTE (" " ++ String DQUOTE (fmt_date d ++ String DQUOTE "")))
  | None =>
    pad3 (fmt_dec (code w)) ++ " " ++ agent w ++ " " ++
    String DQUOTE (text w ++ String DQUOTE "")
  end.
End Codec.

End Warning.

(** ** [Cookie::parse_header] (cookie.rs, lines 130-151) *)
Module CookieParse.
Import Text.

Section Parse.
(** [VecMap::insert] (header/internals/vec_map.rs is not in src): any
    function of the key, the value and the map. *)
Context (insert : string -> string -> Cookie.VecMap -> Cookie.VecMap).

(** The body of [for cookie_str in cookies_str.split(';')]: [splitn(2, '=')],
    and an insert of the trimmed key and value when both are present. *)
Definition insert_cookie_str (vec_map : Cookie.VecMap) (cookie_str : string) : Cookie.VecMap :=
  match split_once cookie_str with
  | (key, Some val) => insert (str_trim key) (str_trim val) vec_map
  | (_, None) => vec_map
  end.

(** The loop [for cookies_raw in raw.iter()], with [from_utf8(cookies_raw)?]. *)
Fixpoint parse_lines (vec_map : Cookie.VecMap) (raw : Raw.RawField) : Result Cookie.VecMap :=
  match raw with
  | [] => Ok vec_map
  | cookies_raw :: rest =>
    if utf8_valid cookies_raw then
      parse_lines (fold_left insert_cookie_str (split_char ";" cookies_raw) vec_map) rest
    else Err Utf8
  end.

(** [Cookie::parse_header]: the map starts empty
    ([VecMap::with_capacity]); an empty result is a [Header] error. *)
Definition parse_header (raw : Raw.RawField) : Result Cookie.Cookie :=
  match parse_lines [] raw with
  | Err e => Err e
  | Ok vec_map => if Nat.eqb (length vec_map) 0 then Err Header else Ok vec_map
  end.
End Parse.

End CookieParse.

(** * Properties *)

(** ** The caches *)
Module CellFacts.
Import PtrMapCell.

Lemma tokens_Many {V} (hm : gmap positive V) (k : TypeId) :
  k ∈ tokens (Many hm) <-> is_Some (hm !! k).
Proof.
  simpl. rewrite list_elem_of_fmap. split.
  - intros [[i x] [-> Hin]]. apply elem_of_map_to_list in Hin. simpl. eauto.
  - intros [x Hx]. exists (k, x). split; [done|]. by apply elem_of_map_to_list.
Qed.

Lemma get_not_token {V} (m : PtrMap V) (k : TypeId) :
  k ∉ tokens m -> get m k = None.
Proof.
  destruct m as [|id v|hm]; simpl; intros Hk.
  - done.
  - destruct (decide (id = k)) as [->|]; [|done]. exfalso. apply Hk. by left.
  - destruct (hm !! k) eqn:E; [|done]. exfalso. apply Hk.
    apply (tokens_Many hm k). by rewrite E.
Qed.

Lemma get_insert_eq {V} (m : PtrMap V) (k : TypeId) (v : V) :
  get (insert m k v) k = Some v.
Proof.
  destruct m as [|id w|hm]; simpl.
  - by rewrite decide_True.
  - by rewrite lookup_insert_eq.
  - by rewrite lookup_insert_eq.
Qed.

Lemma get_insert_ne {V} (m : PtrMap V) (k k' : TypeId) (v : V) :
  k' <> k -> get (insert m k v) k' = get m k'.
Proof.
  intros Hne. destruct m as [|id w|hm]; simpl.
  - by rewrite decide_False.
  - rewrite lookup_insert_ne by congruence.
    destruct (decide (id = k')) as [->|Hid].
    + by rewrite lookup_insert_eq.
    + by rewrite lookup_insert_ne, lookup_empty.
  - by rewrite lookup_insert_ne by congruence.
Qed.

End CellFacts.

Module CellClaims.
Import PtrMapCell CellFacts.

(** C1: under the caller's uniqueness precondition (the inserted token
    has no entry yet): [get] with a token that has no entry returns
    [None]; after [insert], [get] returns the new entry under its token
    and every other token's entry unchanged (so a [One] cache keeps its
    original entry); [insert] moves [Empty] to [One] holding the entry,
    [One] to [Many], [Many] to [Many]: the structural state only moves
    forward. *)
Theorem insert_forward {V} (m : PtrMap V) (k : TypeId) (v : V) :
  k ∉ tokens m ->
  (forall k', k' ∉ tokens m -> get m k' = None) /\
  get (insert m k v) k = Some v /\
  (forall k', k' <> k -> get (insert m k v) k' = get m k') /\
  (forall id v0, m = One id v0 -> get (insert m k v) id = Some v0) /\
  rank m <= rank (insert m k v) /\
  match m with
  | Empty => insert m k v = One k v
  | One _ _ => exists hm, insert m k v = Many hm
  | Many _ => exists hm, insert m k v = Many hm
  end.
Proof.
  intros Hk. split; [intros k'; apply get_not_token|].
  split; [apply get_insert_eq|].
  split; [intros k'; apply get_insert_ne|].
  split.
  - intros id v0 ->. rewrite get_insert_ne.
    + simpl. by rewrite decide_True.
    + intros ->. apply Hk. by left.
  - destruct m as [|id w|hm]; simpl; split; eauto with arith.
Qed.

Lemma insert_forward_witness :
  (2%positive ∉ tokens (One 1%positive 10)) /\
  get (insert (One 1%positive 10) 2%positive 20) 1%positive = Some 10.
Proof.
  assert (H : 2%positive ∉ tokens (One 1%positive 10)).
  { apply (bool_decide_unpack _). vm_compute. reflexivity. }
  split; [exact H|].
  destruct (insert_forward (One 1%positive 10) 2%positive 20 H)
    as [_ [_ [_ [Hold _]]]].
  apply (Hold 1%positive 10). reflexivity.
Defined.

(** C7: [one] returns the stored value of a [One] cache (its panic
    branch is unreachable there) and panics on an [Empty] or [Many]
    cache. *)
Theorem one_contract {V} (m : PtrMap V) :
  match m with
  | One _ v => one m = Done v
  | _ => one m = Panic
  end.
Proof. by destruct m. Qed.

(** C2 (counterexample): in a release build the [debug_assert!] of
    [OptCell::set] is compiled out and [set] replaces a stored value. *)
Lemma set_release_overwrites :
  OptCell.set OptCell.Release (OptCell.new (Some 1)) 2 = Done (Some 2).
Proof. reflexivity. Qed.

(** C2 (amended): a new empty cell reads [None]; [set v] on an empty
    cell makes it read [Some v]; on a non-empty cell [set] panics in a
    debug build (nothing is stored) and replaces the value in a release
    build; a successful [set] never leaves the cell empty. *)
Theorem set_contract {T} (v x : T) :
  OptCell.deref (OptCell.new (@None T)) = None /\
  (forall b, OptCell.set b (OptCell.new None) v = Done (Some v)) /\
  OptCell.set OptCell.Debug (Some x) v = Panic /\
  OptCell.set OptCell.Release (Some x) v = Done (Some v) /\
  (forall b c c', OptCell.set b c v = Done c' -> OptCell.deref c' = Some v).
Proof.
  repeat split.
  - by intros [].
  - intros [] [y|] c' H; simpl in H; unfold OptCell.deref; congruence.
Qed.

Lemma set_contract_witness :
  OptCell.deref (Some 5) = Some 5.
Proof.
  destruct (set_contract 5 4) as [_ [_ [_ [_ Hset]]]].
  apply (Hset OptCell.Debug None (Some 5)). reflexivity.
Defined.

End CellClaims.

(** ** Rightmost-wins resolution of [ReferrerPolicy] *)
Module ReferrerPolicyFacts.
Import ReferrerPolicy.

Definition unknown (t : string) : Prop := policy_of (to_ascii_lowercase t) = None.

Lemma scan_ok (l : list string) (p : ReferrerPolicy) :
  scan l = Ok p <->
  exists a h b, l = a ++ h :: b /\ Forall unknown a /\
                policy_of (to_ascii_lowercase h) = Some p.
Proof.
  split.
  - induction l as [|x l IH]; simpl; [discriminate|].
    destruct (policy_of (to_ascii_lowercase x)) as [q|] eqn:E.
    + intros H. injection H as <-. exists [], x, l. auto.
    + intros H. destruct (IH H) as (a & h & b & -> & Ha & Hh).
      exists (x :: a), h, b. split; [reflexivity|]. split; [|exact Hh].
      constructor; [exact E|exact Ha].
  - intros (a & h & b & -> & Ha & Hh). induction Ha as [|x a Hx Ha IH]; simpl.
    + by rewrite Hh.
    + unfold unknown in Hx. by rewrite Hx.
Qed.

Lemma scan_all_unknown (l : list string) :
  Forall unknown l -> scan l = Err Header.
Proof.
  induction 1 as [|x l Hx _ IH]; simpl; [reflexivity|].
  unfold unknown in Hx. by rewrite Hx.
Qed.

End ReferrerPolicyFacts.

Module ReferrerPolicyClaims.
Import ReferrerPolicy ReferrerPolicyFacts.

(** C3: when the field decodes to the token list [hs], [parse_header]
    returns [p] exactly when some token [h] matches [p] up to ASCII case
    and every token to its right is unrecognized (the rightmost known
    token wins, unknown tokens are skipped); when no token is known it
    fails with [Header]; ["same-origin, origin, foobar"] gives
    [Origin]. *)
Theorem parse_header_rightmost (raw : Raw.RawField) (hs : list string) :
  Raw.from_comma_delimited (fun s => Some s) raw = Ok hs ->
  (forall p, parse_header raw = Ok p <->
     exists pre h post, hs = pre ++ h :: post /\
       policy_of (to_ascii_lowercase h) = Some p /\ Forall unknown post) /\
  (Forall unknown hs -> parse_header raw = Err Header) /\
  parse_header ["same-origin, origin, foobar"] = Ok Origin.
Proof.
  intros Hraw. unfold parse_header at 1 2. rewrite Hraw.
  split; [|split; [|reflexivity]].
  - intros p. rewrite scan_ok. split.
    + intros (a & h & b & Hrev & Ha & Hh).
      exists (rev b), h, (rev a). repeat split; [|exact Hh|by apply Forall_rev].
      rewrite <- (rev_involutive hs), Hrev, rev_app_distr. simpl.
      by rewrite <- app_assoc.
    + intros (pre & h & post & -> & Hh & Hpost).
      exists (rev post), h, (rev pre). repeat split; [|by apply Forall_rev|exact Hh].
      rewrite rev_app_distr. simpl. by rewrite <- app_assoc.
  - intros Hall. apply scan_all_unknown. by apply Forall_rev.
Qed.

Lemma parse_header_rightmost_witness :
  parse_header ["same-origin, origin, foobar"] = Ok Origin /\
  parse_header ["foobar"] = Err Header.
Proof.
  split.
  - destruct (parse_header_rightmost ["same-origin, origin, foobar"]
                ["same-origin"; "origin"; "foobar"]) as [H _]; [reflexivity|].
    apply H. exists ["same-origin"], "origin", ["foobar"].
    split; [reflexivity|]. split; [reflexivity|].
    constructor; [reflexivity|constructor].
  - destruct (parse_header_rightmost ["foobar"] ["foobar"]) as [_ [H _]];
      [reflexivity|].
    apply H. constructor; [reflexivity|constructor].
Defined.

End ReferrerPolicyClaims.

(** ** Round trip of [PreferenceApplied] *)
Module PreferenceAppliedClaims.
Import PreferenceApplied.




End PreferenceAppliedClaims.

(** ** The quality-value and list codecs *)
Module QualityFacts.
Import Quality.

Lemma string_app_cons (x : ascii) (a b : string) :
  (String x a ++ b)%string = String x (a ++ b)%string.
Proof. reflexivity. Qed.

Lemma string_app_nil_r (a : string) : (a ++ "")%string = a.
Proof. induction a as [|x a IH]; [reflexivity|]. rewrite string_app_cons. by rewrite IH. Qed.

Lemma string_app_assoc (a b c : string) : ((a ++ b) ++ c)%string = (a ++ (b ++ c))%string.
Proof.
  induction a as [|x a IH]; [reflexivity|].
  rewrite !string_app_cons. by rewrite IH.
Qed.

Lemma q_param_default (params : list string) :
  existsb (fun p => String.eqb (trim (fst (split_once p))) "q") params = false ->
  q_param params = Some default_quality.
Proof.
  induction params as [|p rest IH]; simpl; [reflexivity|].
  destruct (split_once p) as [k v]. simpl.
  destruct (String.eqb (trim k) "q"); simpl; [discriminate|exact IH].
Qed.

Import ListSyntax.

(** Outside quoted strings, text with no comma and no double quote is
    read into the current item. *)
Lemma split_go_plain (cur s rest : string) :
  plain_ok s = true ->
  split_go "," false false cur (s ++ rest) = split_go "," false false (cur ++ s) rest.
Proof.
  revert cur. induction s as [|c s IH]; intros cur Hs.
  - by rewrite string_app_nil_r.
  - simpl in Hs. apply andb_prop in Hs as [Hc Hs]. apply andb_prop in Hc as [Hcomma Hdq].
    apply negb_true_iff in Hcomma, Hdq.
    rewrite string_app_cons. simpl. rewrite Hcomma, Hdq.
    rewrite (IH _ Hs), string_app_assoc. reflexivity.
Qed.

(** Inside a quoted string, escaped content and the closing quote are
    read into the current item, whatever the separator. *)
Lemma split_go_escape (sep : ascii) (cur s rest : string) :
  split_go sep true false cur (escape s ++ String DQUOTE rest) =
  split_go sep false false (cur ++ escape s ++ String DQUOTE "")%string rest.
Proof.
  revert cur. induction s as [|c s IH]; intros cur; [reflexivity|].
  simpl escape. destruct (Ascii.eqb c DQUOTE || Ascii.eqb c BSLASH) eqn:E.
  - rewrite !string_app_cons. simpl.
    rewrite IH, !string_app_assoc. reflexivity.
  - apply orb_false_iff in E as [Hdq Hbs].
    rewrite string_app_cons. simpl. rewrite Hbs, Hdq.
    rewrite IH, !string_app_assoc. reflexivity.
Qed.

Lemma split_go_piece (cur rest : string) (p : Piece) :
  match p with Plain s => plain_ok s | Quoted _ => true end = true ->
  split_go "," false false cur (render_piece p ++ rest) =
  split_go "," false false (cur ++ render_piece p) rest.
Proof.
  destruct p as [s|s]; intros Hp; simpl render_piece.
  - by apply split_go_plain.
  - rewrite string_app_cons, string_app_assoc.
    change (split_go "," false false cur
              (String DQUOTE (escape s ++ String DQUOTE "" ++ rest)))
      with (split_go "," true false (cur ++ String DQUOTE "")
              (escape s ++ String DQUOTE rest)).
    rewrite split_go_escape, !string_app_assoc. reflexivity.
Qed.

(** A well-formed segment is read whole into the current item. *)
Lemma split_go_render (cur rest : string) (seg : list Piece) :
  seg_ok seg = true ->
  split_go "," false false cur (render seg ++ rest) =
  split_go "," false false (cur ++ render seg) rest.
Proof.
  revert cur. induction seg as [|p seg IH]; intros cur Hseg.
  - simpl. by rewrite string_app_nil_r.
  - simpl in Hseg. apply andb_prop in Hseg as [Hp Hseg].
    simpl render. rewrite string_app_assoc, (split_go_piece _ _ _ Hp), (IH _ Hseg).
    by rewrite string_app_assoc.
Qed.

(** Splitting segments joined by commas gives back the segments. *)
Lemma split_go_join (cur : string) (x : list Piece) (L : list (list Piece)) :
  Forall (fun seg => seg_ok seg = true) (x :: L) ->
  split_go "," false false cur (join (render x :: map render L)) =
  (cur ++ render x)%string :: map render L.
Proof.
  revert cur x. induction L as [|y L IH]; intros cur x HL; inversion HL as [|? ? Hx HL']; subst.
  - simpl join. rewrite <- (string_app_nil_r (render x)) at 1.
    rewrite (split_go_render _ _ _ Hx). reflexivity.
  - change (join (render x :: map render (y :: L)))
      with (render x ++ String "," (join (render y :: map render L)))%string.
    rewrite (split_go_render _ _ _ Hx).
    change (split_go "," false false (cur ++ render x)
              (String "," (join (render y :: map render L))))
      with ((cur ++ render x)%string ::
            split_go "," false false "" (join (render y :: map render L))).
    rewrite (IH "" y HL'). reflexivity.
Qed.

Lemma split_top_join (L : list (list Piece)) :
  L <> [] -> Forall (fun seg => seg_ok seg = true) L ->
  split_top "," (join (map render L)) = map render L.
Proof.
  destruct L as [|x L]; [done|]. intros _ HL.
  unfold split_top. simpl map. by rewrite (split_go_join "" x L HL).
Qed.

(** A comma splits UTF-8 validity: it is an ASCII byte, so it is never
    part of a multi-byte sequence. *)
Lemma utf8_valid_comma_aux (n : nat) (a b : string) :
  String.length a <= n ->
  utf8_valid (a ++ String "," b) = utf8_valid a && utf8_valid b.
Proof.
  revert a b. induction n as [|n IH]; intros a b Hn.
  - destruct a; [reflexivity|simpl in Hn; lia].
  - destruct a as [|c1 r1]; [reflexivity|]. simpl in Hn.
    rewrite string_app_cons. cbn [utf8_valid].
    destruct (byte_in c1 0 127) eqn:E0; [apply IH; lia|].
    destruct r1 as [|c2 r2].
    + simpl. destruct (byte_in c1 194 223); [reflexivity|].
      destruct b as [|c3 [|c4 r4]]; simpl;
        repeat (destruct (byte_in c1 _ _); simpl); reflexivity.
    + rewrite string_app_cons. simpl in Hn.
      destruct (byte_in c1 194 223).
      { rewrite IH by lia. by rewrite andb_assoc. }
      destruct r2 as [|c3 r3].
      * simpl. destruct b as [|c4 r4]; simpl;
          repeat (destruct (byte_in c1 _ _); simpl); rewrite ?andb_false_r; reflexivity.
      * rewrite string_app_cons. simpl in Hn.
        destruct (byte_in c1 224 239).
        { rewrite IH by lia. by rewrite !andb_assoc. }
        destruct r3 as [|c4 r4].
        -- simpl. repeat (destruct (byte_in c1 _ _); simpl); rewrite ?andb_false_r; reflexivity.
        -- rewrite string_app_cons. simpl in Hn.
           destruct (byte_in c1 240 244); [|reflexivity].
           rewrite IH by lia. by rewrite !andb_assoc.
Qed.

Lemma utf8_valid_join (M : list string) :
  utf8_valid (join M) = forallb utf8_valid M.
Proof.
  induction M as [|x [|y M] IH]; [reflexivity| |].
  - simpl. by rewrite andb_true_r.
  - change (join (x :: y :: M)) with (x ++ String "," (join (y :: M)))%string.
    rewrite (utf8_valid_comma_aux (String.length x)) by lia.
    by rewrite IH.
Qed.

Lemma filter_map_app {A B} (f : A -> option B) (l1 l2 : list A) :
  filter_map f (l1 ++ l2) = filter_map f l1 ++ filter_map f l2.
Proof.
  induction l1 as [|x l1 IH]; [reflexivity|]. simpl.
  destruct (f x); simpl; by rewrite IH.
Qed.

Lemma forallb_map_render (L : list (list Piece)) :
  forallb utf8_valid (map render L) = forallb (fun seg => utf8_valid (render seg)) L.
Proof. induction L as [|x L IH]; [reflexivity|]. simpl. by rewrite IH. Qed.

(** The list decoder on one line made of well-formed segments: each
    segment is one item, decoded on its own. *)
Lemma from_comma_delimited_join {T} (parse : string -> option T) (L : list (list Piece)) :
  Forall (fun seg => seg_ok seg = true) L ->
  Raw.from_comma_delimited parse [join (map render L)] =
  if forallb (fun seg => utf8_valid (render seg)) L
  then Ok (filter_map (fun x => let t := trim x in
                                if String.eqb t "" then None else parse t) (map render L))
  else Err Utf8.
Proof.
  intros HL. simpl. rewrite utf8_valid_join, forallb_map_render.
  destruct (forallb (fun seg => utf8_valid (render seg)) L); [|reflexivity].
  rewrite app_nil_r. unfold Raw.line_items. f_equal.
  destruct L as [|x L]; [reflexivity|].
  by rewrite split_top_join.
Qed.

Lemma from_comma_delimited_empty_seg {T} (parse : string -> option T)
    (L1 L2 : list (list Piece)) :
  Forall (fun seg => seg_ok seg = true) (L1 ++ L2) ->
  Raw.from_comma_delimited parse [join (map render L1 ++ "" :: map render L2)] =
  Raw.from_comma_delimited parse [join (map render (L1 ++ L2))].
Proof.
  intros H. apply Forall_app in H as [H1 H2].
  change (map render L1 ++ "" :: map render L2) with (map render L1 ++ map render ([] :: L2)).
  rewrite <- map_app.
  rewrite !from_comma_delimited_join;
    [| apply Forall_app; done | apply Forall_app; split; [done|constructor; done]].
  rewrite !forallb_app. simpl forallb.
  destruct (forallb _ L1), (forallb _ L2); try reflexivity.
  rewrite !map_app, !filter_map_app. reflexivity.
Qed.

Lemma from_comma_delimited_empty_lines {T} (parse : string -> option T) (n : nat) :
  Raw.from_comma_delimited parse (repeat "" n) = Ok [].
Proof. induction n as [|n IH]; [reflexivity|]. simpl. by rewrite IH. Qed.

End QualityFacts.

Module QualityClaims.
Import Quality QualityFacts ListSyntax.

(** C5: an item with the default quality 1000 is formatted as the item
    alone, with no [;q=] suffix; an item whose text decodes without a
    [q] parameter has quality 1000. *)
Theorem quality_default_omitted {T} (fmt_item : T -> string)
    (parse_item : string -> option T) (x : T) (s : string) (qi : QualityItem T) :
  parse_qitem parse_item s = Some qi ->
  has_q_param s = false ->
  fmt_qitem fmt_item {| item := x; quality := default_quality |} = fmt_item x /\
  quality qi = default_quality.
Proof.
  intros Hp Hn. split.
  - unfold fmt_qitem, fmt_quality. simpl. apply string_app_nil_r.
  - unfold parse_qitem, has_q_param in *.
    destruct (split_top ";" s) as [|it params]; [discriminate|].
    simpl in Hn. rewrite (q_param_default params Hn) in Hp.
    destruct (parse_item (trim it)); [|discriminate].
    injection Hp as <-. reflexivity.
Qed.

Lemma quality_default_omitted_witness :
  quality {| item := "gzip"; quality := 1000 |} = default_quality.
Proof.
  refine (proj2 (quality_default_omitted (fun s => s) (fun s => Some s)
                   "gzip" "gzip; level=1" {| item := "gzip"; quality := 1000 |} _ _));
    vm_compute; reflexivity.
Defined.

Definition qi1 (s : string) : QualityItem Encoding.Encoding :=
  {| item := s; quality := default_quality |}.

(** C6: for [AcceptEncoding] and [Te], a field with no line or with
    only empty lines decodes to the empty list; an empty segment (two
    consecutive commas, or a comma at either end) changes nothing, as in
    ["a,, b"], which decodes to [a] and [b]; and a line of segments
    joined by commas, where each segment is plain text and quoted
    strings (any content, with backslash escapes, commas included),
    decodes to one item per segment: a comma inside a quoted string does
    not separate items. *)
Theorem list_decode_tolerance :
  (forall n, AcceptEncoding.parse_header (repeat "" n) = Ok [] /\
             Te.parse_header (repeat "" n) = Ok []) /\
  AcceptEncoding.parse_header [] = Ok [] /\ Te.parse_header [] = Ok [] /\
  AcceptEncoding.parse_header [""] = Ok [] /\ Te.parse_header [""] = Ok [] /\
  AcceptEncoding.parse_header ["a,, b"] = Ok [qi1 "a"; qi1 "b"] /\
  Te.parse_header ["a,, b"] = Ok [qi1 "a"; qi1 "b"] /\
  (forall L1 L2 : list (list Piece),
     Forall (fun seg => seg_ok seg = true) (L1 ++ L2) ->
     AcceptEncoding.parse_header [join (map render L1 ++ "" :: map render L2)] =
     AcceptEncoding.parse_header [join (map render (L1 ++ L2))] /\
     Te.parse_header [join (map render L1 ++ "" :: map render L2)] =
     Te.parse_header [join (map render (L1 ++ L2))]) /\
  (forall L : list (list Piece),
     Forall (fun seg => seg_ok seg = true) L ->
     AcceptEncoding.parse_header [join (map render L)] =
     (if forallb (fun seg => utf8_valid (render seg)) L
      then Ok (filter_map (fun x => let t := trim x in
                                    if String.eqb t "" then None
                                    else parse_qitem Encoding.from_str t) (map render L))
      else Err Utf8) /\
     Te.parse_header [join (map render L)] =
     (if forallb (fun seg => utf8_valid (render seg)) L
      then Ok (filter_map (fun x => let t := trim x in
                                    if String.eqb t "" then None
                                    else parse_qitem Encoding.from_str t) (map render L))
      else Err Utf8)) /\
  AcceptEncoding.parse_header [("a;x=" ++ String DQUOTE ("1,2" ++ String DQUOTE ", b"))%string] =
  Ok [qi1 "a"; qi1 "b"].
Proof.
  split; [intros n; split; apply from_comma_delimited_empty_lines|].
  do 6 (split; [reflexivity|]).
  split; [intros L1 L2 H; split; apply from_comma_delimited_empty_seg; exact H|].
  split; [intros L H; split; apply from_comma_delimited_join; exact H|].
  vm_compute. reflexivity.
Qed.

(** The line [a;x="1,\"2\"", b;q=0.5]: two items. *)
Lemma list_decode_tolerance_witness :
  Te.parse_header [join (map render [[Plain "a;x="; Quoted ("1," ++ String DQUOTE "2")];
                                     []; [Plain " b;q=0.5"]])] =
  Ok [qi1 "a"; {| item := "b"; quality := 500 |}].
Proof.
  destruct list_decode_tolerance as (_ & _ & _ & _ & _ & _ & _ & _ & H & _).
  rewrite (proj2 (H [[Plain "a;x="; Quoted ("1," ++ String DQUOTE "2")];
                     []; [Plain " b;q=0.5"]] ltac:(repeat constructor))).
  vm_compute. reflexivity.
Defined.

End QualityClaims.

(** ** [Cookie::set] *)
Module CookieClaims.
Import Cookie.

Section Key.
Variable k : string.

Let is_k (kv : string * string) : bool := String.eqb (fst kv) k.
Let not_k (kv : string * string) : bool := negb (String.eqb (fst kv) k).

Lemma filter_is_k_removed (l : VecMap) : List.filter is_k (List.filter not_k l) = [].
Proof.
  induction l as [|[a b] l IH]; [reflexivity|]. unfold is_k, not_k in *. simpl.
  destruct (String.eqb a k) eqn:E; simpl; [exact IH|]. rewrite E. exact IH.
Qed.

Lemma filter_not_k_idem (l : VecMap) : List.filter not_k (List.filter not_k l) = List.filter not_k l.
Proof.
  induction l as [|[a b] l IH]; [reflexivity|]. unfold not_k in *. simpl.
  destruct (String.eqb a k) eqn:E; simpl; [exact IH|]. rewrite E. simpl. by rewrite IH.
Qed.

Lemma find_removed (l : VecMap) (v : string) :
  List.find is_k (List.filter not_k l ++ [(k, v)]) = Some (k, v).
Proof.
  induction l as [|[a b] l IH]; unfold is_k, not_k in *; simpl.
  - by rewrite String.eqb_refl.
  - destruct (String.eqb a k) eqn:E; simpl; [exact IH|]. rewrite E. exact IH.
Qed.
End Key.

(** C8: after [set c k v], [get] finds [v] under [k], exactly one pair
    has the name [k], and the pairs with other names are those of [c],
    in the same order. *)
Theorem set_replaces (c : Cookie) (k v : string) :
  get (set c k v) k = Some v /\
  length (List.filter (fun kv => String.eqb (fst kv) k) (set c k v)) = 1 /\
  List.filter (fun kv => negb (String.eqb (fst kv) k)) (set c k v) =
  List.filter (fun kv => negb (String.eqb (fst kv) k)) c.
Proof.
  unfold get, set, vm_get, vm_append, vm_remove_all. split; [|split].
  - by rewrite find_removed.
  - rewrite List.filter_app, filter_is_k_removed. simpl. by rewrite String.eqb_refl.
  - rewrite List.filter_app, filter_not_k_idem. simpl. rewrite String.eqb_refl. simpl.
    apply app_nil_r.
Qed.

End CookieClaims.

Module RoundtripClaims.
Import PreferenceApplied PreferenceAppliedClaims.






End RoundtripClaims.

(** ** Single-line headers *)
Module LastEventIdClaims.
Import LastEventId.

(** C9: a field made of one empty line decodes to [LastEventId("")];
    a field that is not exactly one line fails with [Header]; a single
    line decodes only if it is empty or valid UTF-8. *)
Theorem parse_header_one_line (raw : Raw.RawField) (line : string) :
  parse_header [""] = Ok (mk "") /\
  (length raw <> 1 -> parse_header raw = Err Header) /\
  ((exists id, parse_header [line] = Ok id) -> line = "" \/ utf8_valid line = true).
Proof.
  split; [reflexivity|split].
  - intros Hlen. unfold parse_header.
    destruct raw as [|l [|l' r]]; simpl in *; [reflexivity|lia|reflexivity].
  - intros [id Hid]. unfold parse_header, Raw.from_raw_str in Hid. simpl in Hid.
    destruct (String.eqb line "") eqn:E.
    + left. by apply String.eqb_eq.
    + right. destruct (utf8_valid line); [reflexivity|discriminate].
Qed.

Lemma parse_header_one_line_witness :
  parse_header ["a"; "b"] = Err Header.
Proof.
  destruct (parse_header_one_line ["a"; "b"] "") as [_ [H _]].
  apply H. simpl. lia.
Defined.

End LastEventIdClaims.

Module AccessControlAllowCredentialsClaims.
Import AccessControlAllowCredentials.

Lemma lower_char_high (c : ascii) : 128 <= nat_of_ascii c -> lower_char c = c.
Proof.
  intros H. unfold lower_char, byte_in.
  destruct (Nat.leb 65 (nat_of_ascii c) && Nat.leb (nat_of_ascii c) 90) eqn:E;
    [|reflexivity].
  apply andb_prop in E as [_ E]. apply Nat.leb_le in E. lia.
Qed.

Lemma get_lowercase (n : nat) (s : string) :
  String.get n (to_ascii_lowercase s) = option_map lower_char (String.get n s).
Proof.
  revert n. induction s as [|c s IH]; intros n; [reflexivity|].
  destruct n; simpl; [reflexivity|apply IH].
Qed.

Lemma eq_ascii_high (line : string) (n : nat) (c : ascii) :
  String.get n line = Some c -> 128 <= nat_of_ascii c ->
  eq_ascii line ACCESS_CONTROL_ALLOW_CREDENTIALS_TRUE = false.
Proof.
  intros Hn Hc. unfold eq_ascii.
  destruct (String.eqb _ _) eqn:E; [|reflexivity].
  apply String.eqb_eq in E. exfalso.
  pose proof (get_lowercase n line) as G. rewrite E, Hn in G. simpl in G.
  rewrite (lower_char_high c Hc) in G.
  destruct n as [|[|[|[|n]]]]; simpl in G; try discriminate;
    injection G as <-; vm_compute in Hc; lia.
Qed.

(** C10: [parse_header] succeeds exactly on a field of one line equal
    to ["true"] up to ASCII case, and otherwise fails with [Header]; in
    particular it fails on no line, on two ["true"] lines, on ["false"]
    and on a line with a byte outside ASCII (any non-UTF-8 line). *)
Theorem parse_header_iff (raw : Raw.RawField) :
  (parse_header raw = Ok mk <->
   exists line, raw = [line] /\ eq_ascii line ACCESS_CONTROL_ALLOW_CREDENTIALS_TRUE = true) /\
  (forall e, parse_header raw = Err e -> e = Header) /\
  (forall line n c, String.get n line = Some c -> 128 <= nat_of_ascii c ->
     parse_header [line] = Err Header) /\
  parse_header [] = Err Header /\
  parse_header ["true"; "true"] = Err Header /\
  parse_header ["false"] = Err Header /\
  parse_header ["True"] = Ok mk.
Proof.
  split; [|split; [|split; [|repeat split]]].
  - unfold parse_header. split.
    + destruct (Raw.one raw) as [line|] eqn:E; [|discriminate].
      destruct raw as [|l [|l' r]]; simpl in E; try discriminate.
      injection E as <-. intros H. exists l. split; [reflexivity|].
      destruct (eq_ascii l _); [reflexivity|discriminate].
    + intros (line & -> & H). simpl. by rewrite H.
  - intros e. unfold parse_header.
    destruct (Raw.one raw); [destruct (eq_ascii _ _)|]; congruence.
  - intros line n c Hn Hc. unfold parse_header. simpl.
    by rewrite (eq_ascii_high line n c Hn Hc).
Qed.

Lemma parse_header_iff_witness :
  parse_header [String (ascii_of_nat 217) (String (ascii_of_nat 133) "")] = Err Header.
Proof.
  destruct (parse_header_iff []) as [_ [_ [H _]]].
  apply (H _ 0 (ascii_of_nat 217)); vm_compute; [reflexivity|lia].
Defined.

End AccessControlAllowCredentialsClaims.

(** * Further properties of the code *)

(** ** The caches *)
Module ExtraCell.
Import PtrMapCell CellFacts.

(** [insert] needs no precondition for lookups: after [insert m k v],
    [get] finds [v] under [k] and the old entry under any other token,
    so a second insert under a token replaces the first. *)
Theorem get_insert {V} (m : PtrMap V) (k k' : TypeId) (v : V) :
  get (insert m k v) k' = if decide (k' = k) then Some v else get m k'.
Proof.
  destruct (decide (k' = k)) as [->|Hne].
  - apply get_insert_eq.
  - by apply get_insert_ne.
Qed.

(** A cache built from [new] by a sequence of inserts answers [get] as
    the map of the inserted pairs in which the last insert of a token wins. *)
Theorem get_inserts {V} (l : list (TypeId * V)) (k : TypeId) :
  get (fold_left (fun m kv => insert m kv.1 kv.2) l new) k =
  (list_to_map (rev l) : gmap positive V) !! k.
Proof.
  assert (G : forall m0, get (fold_left (fun m kv => insert m kv.1 kv.2) l m0) k =
    match (list_to_map (rev l) : gmap positive V) !! k with
    | Some v => Some v | None => get m0 k end).
  { induction l as [|[k1 v1] r IH]; intros m0; simpl.
    - by rewrite lookup_empty.
    - rewrite IH, list_to_map_app. simpl. rewrite lookup_union.
      destruct (list_to_map (rev r) !! k) eqn:E.
      + by destruct (<[k1:=v1]> (∅ : gmap positive V) !! k).
      + destruct (decide (k = k1)) as [->|Hne].
        * by rewrite lookup_insert_eq, get_insert_eq.
        * by rewrite lookup_insert_ne, lookup_empty, get_insert_ne by congruence. }
  rewrite G. by destruct (_ !! k).
Qed.

(** The tokens with an entry after [insert m k v] are [k] and those of [m]. *)
Theorem tokens_insert {V} (m : PtrMap V) (k k' : TypeId) (v : V) :
  k' ∈ tokens (insert m k v) <-> k' = k \/ k' ∈ tokens m.
Proof.
  destruct m as [|id w|hm]; cbv [insert].
  - change (k' ∈ [k] <-> k' = k \/ k' ∈ ([] : list TypeId)).
    rewrite list_elem_of_singleton. set_solver.
  - change (tokens (One id w)) with [id].
    rewrite tokens_Many, list_elem_of_singleton.
    destruct (decide (k' = k)) as [->|Hk]; [rewrite lookup_insert_eq; naive_solver|].
    rewrite lookup_insert_ne by congruence.
    destruct (decide (k' = id)) as [->|Hid]; [rewrite lookup_insert_eq; naive_solver|].
    rewrite lookup_insert_ne, lookup_empty by congruence.
    split; [by intros []|intros [?|?]; congruence].
  - rewrite !tokens_Many.
    destruct (decide (k' = k)) as [->|Hk]; [rewrite lookup_insert_eq; naive_solver|].
    rewrite lookup_insert_ne by congruence. naive_solver.
Qed.

(** [one] after an insert returns the inserted value exactly when the
    cache was [Empty]; after an insert into a non-empty cache it panics. *)
Theorem one_insert {V} (m : PtrMap V) (k : TypeId) (v : V) :
  one (insert m k v) = match m with Empty => Done v | _ => Panic end.
Proof. by destruct m. Qed.

(** [OptCell::get_mut] panics exactly on an empty cell, and after a
    [set] that did not panic it returns the value just set. *)
Theorem get_mut_set {T} (b : OptCell.Build) (c c' : OptCell.OptCell) (v : T) :
  (OptCell.get_mut c = Panic <-> OptCell.deref c = None) /\
  (OptCell.set b c v = Done c' -> OptCell.get_mut c' = Done v).
Proof.
  split.
  - destruct c; unfold OptCell.deref; simpl; split; congruence.
  - destruct b, c; simpl; intros H; try discriminate; injection H as <-; reflexivity.
Qed.

Lemma get_mut_set_witness : OptCell.get_mut (Some 7) = Done 7.
Proof.
  destruct (get_mut_set OptCell.Debug None (Some 7) 7) as [_ H].
  apply H. reflexivity.
Defined.

End ExtraCell.

(** ** Tokens and single-line headers *)
Module ExtraHeaders.
Import QualityFacts.

(** [RangeUnit::from_str] never fails, and [Display] gives back the
    parsed text. *)
Theorem range_unit_display_from_str (s : string) :
  exists u, RangeUnit.from_str s = Ok u /\ RangeUnit.fmt u = s.
Proof.
  unfold RangeUnit.from_str.
  destruct (String.eqb s "bytes") eqn:E1; [apply String.eqb_eq in E1; subst; eauto|].
  destruct (String.eqb s "none") eqn:E2; [apply String.eqb_eq in E2; subst; eauto|].
  eauto.
Qed.

(** Parsing the [Display] of a range unit gives it back, except for the
    unregistered units spelled ["bytes"] and ["none"], which come back
    as [Bytes] and [None]. *)
Theorem range_unit_from_str_display (u : RangeUnit.RangeUnit) :
  (RangeUnit.from_str (RangeUnit.fmt u) = Ok u <->
   u <> RangeUnit.Unregistered "bytes" /\ u <> RangeUnit.Unregistered "none") /\
  RangeUnit.from_str (RangeUnit.fmt (RangeUnit.Unregistered "bytes")) = Ok RangeUnit.Bytes /\
  RangeUnit.from_str (RangeUnit.fmt (RangeUnit.Unregistered "none")) = Ok RangeUnit.None.
Proof.
  split; [|split; reflexivity].
  destruct u as [| |x]; simpl; [split; [split; discriminate|reflexivity]..|].
  unfold RangeUnit.from_str.
  destruct (String.eqb x "bytes") eqn:E1.
  - apply String.eqb_eq in E1 as ->. split; [discriminate|]. intros [H _]. by destruct H.
  - destruct (String.eqb x "none") eqn:E2.
    + apply String.eqb_eq in E2 as ->. split; [discriminate|]. intros [_ H]. by destruct H.
    + apply String.eqb_neq in E1, E2. split; [|reflexivity].
      intros _. split; congruence.
Qed.

(** A field of one line [Display]ed from an [AccessControlAllowOrigin]
    decodes back to it, except an origin spelled ["*"] or ["null"]
    (read as [Any] / [Null]) and an origin that is not UTF-8 (a [Utf8]
    error). *)
Theorem allow_origin_roundtrip (v : AccessControlAllowOrigin.AccessControlAllowOrigin) :
  AccessControlAllowOrigin.parse_header [AccessControlAllowOrigin.fmt v] = Ok v <->
  forall s, v = AccessControlAllowOrigin.Value s ->
    s <> "*" /\ s <> "null" /\ utf8_valid s = true.
Proof.
  destruct v as [| |x]; simpl; [split; [intros _ s H; discriminate|reflexivity]..|].
  unfold AccessControlAllowOrigin.parse_header. simpl.
  destruct (String.eqb x "*") eqn:E1.
  - apply String.eqb_eq in E1 as ->. split; [discriminate|].
    intros H. destruct (H "*" eq_refl) as [[] _]. reflexivity.
  - destruct (String.eqb x "null") eqn:E2.
    + apply String.eqb_eq in E2 as ->. split; [discriminate|].
      intros H. destruct (H "null" eq_refl) as [_ [[] _]]. reflexivity.
    + apply String.eqb_neq in E1, E2.
      destruct (utf8_valid x) eqn:E3; split.
      * intros _ s [= <-]. done.
      * reflexivity.
      * discriminate.
      * intros H. destruct (H x eq_refl) as [_ [_ H3]]. congruence.
Qed.

(** [AccessControlAllowOrigin::parse_header] fails with [Header]
    exactly on a field that is not one line, and with [Utf8] exactly on
    a single line that is not UTF-8. *)
Theorem allow_origin_errors (raw : Raw.RawField) :
  (AccessControlAllowOrigin.parse_header raw = Err Header <-> length raw <> 1) /\
  (AccessControlAllowOrigin.parse_header raw = Err Utf8 <->
   exists line, raw = [line] /\ utf8_valid line = false).
Proof.
  unfold AccessControlAllowOrigin.parse_header.
  destruct raw as [|l [|l' r]]; simpl;
    [split; split; naive_solver|..|split; split; naive_solver].
  destruct (String.eqb l "*") eqn:E1; [|destruct (String.eqb l "null") eqn:E2;
    [|destruct (utf8_valid l) eqn:E3]];
    (split; split; [discriminate| intros H; exfalso; lia | ..]).
  - discriminate.
  - apply String.eqb_eq in E1 as ->. intros (line & [= <-] & H). discriminate.
  - discriminate.
  - apply String.eqb_eq in E2 as ->. intros (line & [= <-] & H). discriminate.
  - discriminate.
  - intros (line & [= <-] & H). congruence.
  - intros _. eauto.
  - reflexivity.
Qed.

(** The [Display] of [AccessControlAllowCredentials] decodes back. *)
Theorem allow_credentials_roundtrip (c : AccessControlAllowCredentials.AccessControlAllowCredentials) :
  AccessControlAllowCredentials.parse_header [AccessControlAllowCredentials.fmt c] = Ok c.
Proof. by destruct c. Qed.

Lemma allow_credentials_roundtrip_witness :
  AccessControlAllowCredentials.parse_header ["true"] = Ok AccessControlAllowCredentials.mk.
Proof. apply (allow_credentials_roundtrip AccessControlAllowCredentials.mk). Defined.

End ExtraHeaders.

(** ** Text routines *)
Module TextFacts.
Import Text QualityFacts.

Ltac bits c := destruct c as [[] [] [] [] [] [] [] []].

(** A visible ASCII byte starts no whitespace character. *)
Lemma ws_len_visible (c : ascii) (x : string) :
  byte_in c 33 126 = true -> ws_len (String c x) = 0.
Proof. intros H. bits c; vm_compute in H; try discriminate; reflexivity. Qed.

Lemma ws_len_zero_not_ws (c : ascii) (x : string) :
  ws_len (String c x) = 0 -> is_ws c = false.
Proof. unfold ws_len. destruct (is_ws c); [discriminate|reflexivity]. Qed.

Lemma sw_go_step (c : ascii) (cur r : string) :
  sw_go 0 cur (String c r) =
  if Nat.eqb (ws_len (String c r)) 0 then sw_go 0 (cur ++ String c "") r
  else ((if String.eqb cur "" then [] else [cur]) ++ sw_go (ws_len (String c r) - 1) "" r)%list.
Proof. reflexivity. Qed.

Lemma sw_go_visible (t cur r : string) :
  token_chars t = true -> sw_go 0 cur (t ++ r) = sw_go 0 (cur ++ t) r.
Proof.
  revert cur. induction t as [|c t IH]; intros cur Ht.
  - by rewrite string_app_nil_r.
  - simpl in Ht. apply andb_prop in Ht as [Hc Ht]. apply andb_prop in Hc as [Hc _].
    rewrite string_app_cons, sw_go_step, (ws_len_visible c _ Hc). simpl.
    rewrite (IH _ Ht), string_app_assoc. reflexivity.
Qed.

Lemma sw_go_space (cur r : string) :
  sw_go 0 cur (String " " r) = (if String.eqb cur "" then [] else [cur]) ++ sw_go 0 "" r.
Proof. reflexivity. Qed.

(** The first two whitespace-separated pieces of [t1 ++ " " ++ t2 ++ " " ++ r]. *)
Lemma split_whitespace_two (t1 t2 r : string) :
  t1 <> "" -> t2 <> "" -> token_chars t1 = true -> token_chars t2 = true ->
  split_whitespace (t1 ++ " " ++ t2 ++ " " ++ r) = t1 :: t2 :: sw_go 0 "" r.
Proof.
  intros N1 N2 T1 T2. unfold split_whitespace.
  rewrite (sw_go_visible t1 _ _ T1). change (" " ++ ?x)%string with (String " " x).
  change ("" ++ t1)%string with t1. rewrite (sw_go_space t1 (t2 ++ " " ++ r)%string).
  rewrite (sw_go_visible t2 _ _ T2). change ("" ++ t2)%string with t2.
  change (" " ++ r)%string with (String " " r). rewrite (sw_go_space t2 r).
  apply String.eqb_neq in N1, N2. by rewrite N1, N2.
Qed.

Lemma split_char_no_quote (t cur r : string) :
  no_quote t = true -> split_char_go DQUOTE cur (t ++ r) = split_char_go DQUOTE (cur ++ t) r.
Proof.
  revert cur. induction t as [|c t IH]; intros cur Ht.
  - by rewrite string_app_nil_r.
  - simpl in Ht. apply andb_prop in Ht as [Hc Ht]. apply negb_true_iff in Hc.
    rewrite string_app_cons. simpl. rewrite Hc, (IH _ Ht), string_app_assoc. reflexivity.
Qed.

Lemma split_char_quote (cur r : string) :
  split_char_go DQUOTE cur (String DQUOTE r) = cur :: split_char_go DQUOTE "" r.
Proof. reflexivity. Qed.

Lemma token_chars_no_quote (t : string) : token_chars t = true -> no_quote t = true.
Proof.
  induction t as [|c t IH]; [done|]. simpl. intros H.
  apply andb_prop in H as [H Ht]. apply andb_prop in H as [_ Hq]. by rewrite Hq, IH.
Qed.

Lemma token_chars_app (a b : string) :
  token_chars (a ++ b) = token_chars a && token_chars b.
Proof.
  induction a as [|c a IH]; [done|]. rewrite string_app_cons. simpl. rewrite IH.
  by rewrite !andb_assoc.
Qed.

Lemma digits_value_app (acc : nat) (a b : string) :
  digits_value acc (a ++ b) =
  match digits_value acc a with Some n => digits_value n b | None => None end.
Proof.
  revert acc. induction a as [|c a IH]; intros acc; [done|].
  rewrite string_app_cons. simpl. destruct (dec_digit c); [apply IH|done].
Qed.

Lemma digit_char_ok (d acc : nat) :
  d < 10 -> digits_value acc (digit_char d) = Some (acc * 10 + d) /\
            token_chars (digit_char d) = true.
Proof. intros H. do 10 (destruct d as [|d]; [split; reflexivity|]). lia. Qed.

Lemma digits_of_ok (fuel n : nat) :
  n < fuel -> digits_value 0 (digits_of fuel n) = Some n /\
              token_chars (digits_of fuel n) = true.
Proof.
  revert n. induction fuel as [|f IH]; intros n Hn; [lia|]. cbn [digits_of].
  destruct (Nat.ltb n 10) eqn:E.
  - apply Nat.ltb_lt in E. apply (digit_char_ok n 0 E).
  - apply Nat.ltb_ge in E.
    assert (Hd : n / 10 < f) by (apply Nat.lt_le_trans with n; [apply Nat.div_lt|]; lia).
    destruct (IH (n / 10) Hd) as [IH1 IH2].
    assert (Hm : n mod 10 < 10) by (apply Nat.mod_upper_bound; lia).
    destruct (digit_char_ok (n mod 10) (n / 10) Hm) as [D1 D2].
    rewrite digits_value_app, IH1, D1, token_chars_app, IH2, D2. split; [|done].
    f_equal. pose proof (Nat.div_mod_eq n 10). lia.
Qed.

Lemma zeros_ok (k : nat) : digits_value 0 (zeros k) = Some 0 /\ token_chars (zeros k) = true.
Proof. induction k as [|k IH]; [done|]. exact IH. Qed.

(** The [{:03}] rendering of a [u16]: visible digits with the value. *)
Lemma pad3_fmt_dec (n : nat) :
  pad3 (fmt_dec n) <> "" /\ digits_value 0 (pad3 (fmt_dec n)) = Some n /\
  token_chars (pad3 (fmt_dec n)) = true.
Proof.
  destruct (digits_of_ok (S n) n (Nat.lt_succ_diag_r n)) as [D1 D2].
  unfold pad3. fold (fmt_dec n) in D1, D2.
  destruct (Nat.ltb (String.length (fmt_dec n)) 3) eqn:E.
  - apply Nat.ltb_lt in E. destruct (zeros_ok (3 - String.length (fmt_dec n))) as [Z1 Z2].
    rewrite digits_value_app, Z1, D1, token_chars_app, Z2, D2.
    split; [|done]. destruct (3 - String.length (fmt_dec n)) eqn:E3; [lia|discriminate].
  - apply Nat.ltb_ge in E. split; [|done]. intros H. rewrite H in E. simpl in E. lia.
Qed.

Lemma parse_u16_digits (s : string) (n : nat) :
  s <> "" -> digits_value 0 s = Some n -> n <= 65535 -> parse_u16 s = Some n.
Proof.
  intros Hs Hd Hn. unfold parse_u16.
  assert (E : match s with String "+" r => r | _ => s end = s).
  { destruct s as [|c r]; [done|]. bits c; try reflexivity. discriminate Hd. }
  rewrite E. destruct s as [|c r]; [done|]. rewrite Hd.
  apply Nat.leb_le in Hn. by rewrite Hn.
Qed.

Lemma list_ascii_of_string_app (a b : string) :
  list_ascii_of_string (a ++ b) = list_ascii_of_string a ++ list_ascii_of_string b.
Proof. induction a as [|c a IH]; [done|]. rewrite string_app_cons. simpl. by rewrite IH. Qed.

(** Every piece of [split_whitespace] is non-empty and holds no ASCII
    whitespace byte. *)
Lemma sw_go_pieces (s : string) (skip : nat) (cur x : string) :
  Forall (fun c => is_ws c = false) (list_ascii_of_string cur) ->
  In x (sw_go skip cur s) ->
  x <> "" /\ Forall (fun c => is_ws c = false) (list_ascii_of_string x).
Proof.
  revert skip cur. induction s as [|c r IH]; intros skip cur Hcur Hin.
  - simpl in Hin. destruct (String.eqb cur "") eqn:E; [done|].
    destruct Hin as [<-|[]]. split; [by apply String.eqb_neq|done].
  - destruct skip as [|k]; [|exact (IH k cur Hcur Hin)].
    rewrite sw_go_step in Hin. destruct (Nat.eqb (ws_len (String c r)) 0) eqn:W.
    + apply Nat.eqb_eq, ws_len_zero_not_ws in W.
      apply (IH 0 (cur ++ String c "")%string); [|exact Hin].
      rewrite list_ascii_of_string_app. apply Forall_app. split; [done|by constructor].
    + apply in_app_or in Hin as [Hin|Hin].
      * destruct (String.eqb cur "") eqn:E; [done|].
        destruct Hin as [<-|[]]. split; [by apply String.eqb_neq|done].
      * exact (IH _ "" (List.Forall_nil _) Hin).
Qed.

Lemma parse_u16_bound (s : string) (n : nat) : parse_u16 s = Some n -> n <= 65535.
Proof.
  unfold parse_u16. destruct (match s with String "+" r => r | _ => s end); [discriminate|].
  destruct (digits_value 0 _) as [m|]; [|discriminate].
  destruct (Nat.leb m 65535) eqn:E; [|discriminate]. intros [= <-]. by apply Nat.leb_le.
Qed.

End TextFacts.

(** ** The [Warning] codec *)
Module ExtraWarning.
Import Text TextFacts Warning.

Section Codec.
Context {D : Type} (parse_date : string -> option D) (fmt_date : D -> string).

Lemma split_char_fmt (w : Warning D) :
  token_chars (agent w) = true -> no_quote (text w) = true ->
  (forall d, date w = Some d -> no_quote (fmt_date d) = true) ->
  exists x, split_char DQUOTE (Warning.fmt fmt_date w) =
    x :: text w :: match date w with Some d => [" "; fmt_date d; ""] | None => [""] end.
Proof.
  intros Ha Ht Hd. destruct (pad3_fmt_dec (code w)) as [_ [_ Hc]].
  unfold split_char, Warning.fmt.
  destruct (date w) as [d|].
  - specialize (Hd d eq_refl).
    rewrite (split_char_no_quote _ _ _ (token_chars_no_quote _ Hc)),
      (split_char_no_quote " " _ _ eq_refl),
      (split_char_no_quote _ _ _ (token_chars_no_quote _ Ha)),
      (split_char_no_quote " " _ _ eq_refl), split_char_quote,
      (split_char_no_quote _ _ _ Ht), split_char_quote,
      (split_char_no_quote " " _ _ eq_refl), split_char_quote,
      (split_char_no_quote _ _ _ Hd), split_char_quote.
    eexists. reflexivity.
  - rewrite (split_char_no_quote _ _ _ (token_chars_no_quote _ Hc)),
      (split_char_no_quote " " _ _ eq_refl),
      (split_char_no_quote _ _ _ (token_chars_no_quote _ Ha)),
      (split_char_no_quote " " _ _ eq_refl), split_char_quote,
      (split_char_no_quote _ _ _ Ht), split_char_quote.
    eexists. reflexivity.
Qed.

(** [Warning]'s [Display] is read back by its [FromStr] when the code
    fits a [u16], the agent is a non-empty run of visible ASCII without
    a double quote, the text has no double quote, and a date is
    rendered without a double quote by a [Display] that [FromStr] of
    the date reads back. *)
Theorem warning_roundtrip (w : Warning D) :
  code w <= 65535 -> agent w <> "" -> token_chars (agent w) = true ->
  no_quote (text w) = true ->
  (forall d, date w = Some d ->
     no_quote (fmt_date d) = true /\ parse_date (fmt_date d) = Some d) ->
  Warning.from_str parse_date (Warning.fmt fmt_date w) = Ok w.
Proof.
  intros Hcode Ha Hta Ht Hd.
  destruct (split_char_fmt w Hta Ht (fun d H => proj1 (Hd d H))) as [x Hx].
  destruct (pad3_fmt_dec (code w)) as [Hc1 [Hc2 Hc3]].
  assert (Hsw : exists r, split_whitespace (Warning.fmt fmt_date w) =
                          pad3 (fmt_dec (code w)) :: agent w :: r).
  { unfold Warning.fmt. destruct (date w); eexists; by apply split_whitespace_two. }
  destruct Hsw as [r Hsw].
  unfold Warning.from_str. rewrite Hsw, (parse_u16_digits _ _ Hc1 Hc2 Hcode), Hx. simpl.
  destruct w as [c a t [d|]]; simpl in *; [|reflexivity].
  by rewrite (proj2 (Hd d eq_refl)).
Qed.

(** A [Warning] read by [FromStr] has a code that fits a [u16] and a
    non-empty agent without ASCII whitespace. *)
Theorem warning_from_str_ok (s : string) (w : Warning D) :
  Warning.from_str parse_date s = Ok w ->
  code w <= 65535 /\ agent w <> "" /\
  Forall (fun c => is_ws c = false) (list_ascii_of_string (agent w)).
Proof.
  unfold Warning.from_str. destruct (split_whitespace s) as [|c ws] eqn:Hsw; [discriminate|].
  destruct (parse_u16 c) as [n|] eqn:Hn; [|discriminate].
  destruct ws as [|a ws]; [discriminate|].
  destruct (tl (split_char DQUOTE s)) as [|t rest]; [discriminate|].
  intros [= <-]. simpl. split; [exact (parse_u16_bound c n Hn)|].
  apply (sw_go_pieces s 0 ""); [constructor|].
  unfold split_whitespace in Hsw. rewrite Hsw. right. by left.
Qed.

End Codec.

Lemma warning_roundtrip_witness :
  Warning.from_str (fun s => Some s) (Warning.fmt (fun d => d)
    {| code := 299; agent := "api.hyper.rs"; text := "Deprecated API";
       date := Some "Tue, 15 Nov 1994 08:12:31 GMT" |}) =
  Ok {| code := 299; agent := "api.hyper.rs"; text := "Deprecated API";
        date := Some "Tue, 15 Nov 1994 08:12:31 GMT" |}.
Proof.
  apply warning_roundtrip; simpl.
  - apply Nat.leb_le. reflexivity.
  - discriminate.
  - reflexivity.
  - reflexivity.
  - intros d [= <-]. split; reflexivity.
Defined.

Lemma warning_from_str_ok_witness :
  7 <= 65535 /\ "-" <> "".
Proof.
  destruct (warning_from_str_ok (fun s => Some s)
              (Warning.fmt (fun d => d) {| code := 7; agent := "-"; text := "x"; date := None |})
              {| code := 7; agent := "-"; text := "x"; date := None |})
    as [H1 [H2 _]]; [vm_compute; reflexivity|].
  split; [exact H1|exact H2].
Defined.

End ExtraWarning.

(** ** [Cookie] *)
Module ExtraCookie.
Import Cookie QualityFacts.

(** [append] never overrides: [get] keeps returning the first value of
    a name, and finds the appended value only for a name [c] lacks. *)
Theorem get_append (c : Cookie) (k v k' : string) :
  get (append c k v) k' =
  match get c k' with
  | Some x => Some x
  | None => if String.eqb k k' then Some v else None
  end.
Proof.
  unfold get, append, vm_get, vm_append.
  induction c as [|[a b] c IH]; simpl; [by destruct (String.eqb k k')|].
  by destruct (String.eqb a k').
Qed.

(** A second [set] of the same name undoes the first one. *)
Theorem set_set (c : Cookie) (k v v' : string) :
  set (set c k v) k v' = set c k v'.
Proof.
  unfold set, vm_append, vm_remove_all. f_equal.
  rewrite List.filter_app, CookieClaims.filter_not_k_idem. simpl.
  rewrite String.eqb_refl. simpl. apply app_nil_r.
Qed.

Lemma fmt_rest_app (l : VecMap) (k v : string) :
  fmt_rest (l ++ [(k, v)]) = (fmt_rest l ++ "; " ++ k ++ "=" ++ v)%string.
Proof.
  induction l as [|[a b] l IH]; simpl; [by rewrite string_app_nil_r|].
  rewrite IH, !string_app_assoc. reflexivity.
Qed.

(** The [Display] of [append c k v] is that of [c] followed by
    [; k=v], or [k=v] alone when [c] is empty. *)
Theorem fmt_append (c : Cookie) (k v : string) :
  fmt (append c k v) =
  match c with
  | [] => (k ++ "=" ++ v)%string
  | _ => (fmt c ++ "; " ++ k ++ "=" ++ v)%string
  end.
Proof.
  unfold append, vm_append. destruct c as [|[a b] c]; simpl.
  - by rewrite string_app_nil_r.
  - rewrite fmt_rest_app, !string_app_assoc. reflexivity.
Qed.

Lemma get_unique (c : Cookie) (k v : string) :
  NoDup (map fst c) -> In (k, v) c -> get c k = Some v.
Proof.
  unfold get, vm_get. induction c as [|[a b] c IH]; intros Hnd Hin; [done|].
  simpl in *. apply NoDup_cons in Hnd as [Ha Hnd].
  destruct Hin as [[= -> ->]|Hin].
  - by rewrite String.eqb_refl.
  - destruct (String.eqb a k) eqn:E; [|exact (IH Hnd Hin)].
    apply String.eqb_eq in E as ->. exfalso. apply Ha.
    apply (in_map fst) in Hin. by apply list_elem_of_In.
Qed.

(** [PartialEq for Cookie] is reflexive on cookies whose names are all
    distinct. *)
Theorem eq_refl_unique (c : Cookie) :
  NoDup (map fst c) -> eq c c = true.
Proof.
  intros Hnd. unfold eq. rewrite Nat.eqb_refl. apply forallb_forall.
  intros [k v] Hin. simpl. rewrite (get_unique c k v Hnd Hin). apply String.eqb_refl.
Qed.

(** With repeated names [PartialEq for Cookie] is neither reflexive
    nor symmetric, since it compares the pairs of [self] with the first
    value [get] finds in [other]. *)
Theorem eq_not_equivalence :
  ~ (forall c : Cookie, eq c c = true) /\
  ~ (forall c d : Cookie, eq c d = eq d c).
Proof.
  split.
  - intros H. specialize (H [("a", "1"); ("a", "2")]). vm_compute in H. discriminate.
  - intros H. specialize (H [("a", "1"); ("a", "1")] [("a", "1"); ("b", "2")]).
    vm_compute in H. discriminate.
Qed.

Lemma eq_refl_unique_witness :
  eq [("a", "1"); ("b", "2")] [("a", "1"); ("b", "2")] = true.
Proof.
  apply eq_refl_unique. apply (bool_decide_unpack _). vm_compute. reflexivity.
Defined.

End ExtraCookie.

(** ** List headers *)
Module ExtraListHeaders.
Import QualityFacts.









End ExtraListHeaders.
